(** * shallot-http-cors: the CORS header middleware of src/aws/index.ts

  A shallow embedding of [setHeaderIfNotExists], [parseAllowedOrigin] and
  the [finally] hook of [ShallotAWSHttpCors], followed by the properties
  of the header resolution that the specification states.

  JavaScript objects used as dictionaries (the event's header mapping,
  the response's header mapping) are finite maps with string keys; the
  values [undefined] and [null] are kept apart from proper values, since
  the code tests for them with [!= null], [== null] and [??].

  The hook is embedded twice: as a function on requests of the declared
  types, and as a run that can throw and that records its indexed array
  reads, on requests as they are at run time. *)

From Stdlib Require Import ZArith.
From stdpp Require Import base option list strings gmap fin_maps pretty.

Local Open Scope string_scope.

(** ** JavaScript values that may be nullish *)

Module Js.

(** A position that can hold [undefined], [null] or a proper value. *)
Inductive nullable (A : Type) : Type :=
| Undefined
| Null
| Val (a : A).
Arguments Undefined {A}.
Arguments Null {A}.
Arguments Val {A} a.

(** [x == null] *)
Definition is_nullish {A} (x : nullable A) : bool :=
  match x with
  | Val _ => false
  | Undefined | Null => true
  end.

(** [x ?? y] *)
Definition coalesce {A} (x y : nullable A) : nullable A :=
  match x with
  | Val _ => x
  | Undefined | Null => y
  end.

(** [x ?? d] where [d] is a proper value, such as the literal [{}]. *)
Definition coalesce_val {A} (x : nullable A) (d : A) : A :=
  match x with
  | Val a => a
  | Undefined | Null => d
  end.

(** [o[k]] on an object used as a dictionary, for a key [k] that the
    object can only have as a property of its own: a key that is not bound
    reads as [undefined].  The names of [Object_prototype_names] below are
    not such keys: there the read finds the inherited property. *)
Definition get {A} (o : gmap string (nullable A)) (k : string) : nullable A :=
  default Undefined (o !! k).

(** [o.f] for an optional own property [f]: [None] is a property that the
    object does not have, which reads as [undefined]. *)
Definition prop {A} (f : option (nullable A)) : nullable A :=
  default Undefined f.

(** One property of [{ f: base, ...over }]: an own property of the spread
    object wins, whatever its value; otherwise the literal's stays. *)
Definition spread {A} (base over : option A) : option A :=
  match over with
  | Some _ => over
  | None => base
  end.

(** [l.includes(x)] on an array of strings. *)
Fixpoint includes (l : list string) (x : string) : bool :=
  match l with
  | [] => false
  | y :: l' => if String.eqb y x then true else includes l' x
  end.

(** [l[i]]: out of range the read gives [undefined]. *)
Definition index (l : list string) (i : nat) : nullable string :=
  match l !! i with
  | Some s => Val s
  | None => Undefined
  end.

(** [l.length > 0] *)
Definition nonempty (l : list string) : bool :=
  Nat.ltb 0 (length l).


(** What the operations of this module can throw. *)
Inductive exception : Type :=
| TypeError.

(** How a piece of code ends: it returns a value, having made some
    indexed reads on arrays, each recorded as the index and the length of
    the array; or it throws. *)
Inductive outcome (A : Type) : Type :=
| Returned (a : A) (reads : list (nat * nat))
| Thrown (e : exception).
Arguments Returned {A} a reads.
Arguments Thrown {A} e.

(** Code that returns at once. *)
Definition ret {A} (a : A) : outcome A := Returned a [].

(** [m] and then [k] on what [m] returned; an exception of either ends
    the run. *)
Definition bind {A B} (m : outcome A) (k : A → outcome B) : outcome B :=
  match m with
  | Returned a reads =>
      match k a with
      | Returned b reads' => Returned b (reads ++ reads')
      | Thrown e => Thrown e
      end
  | Thrown e => Thrown e
  end.

(** The object of a property read [o.f] or [o[k]]: reading a property of
    [undefined] or [null] throws a [TypeError]. *)
Definition object_of {A} (o : nullable A) : outcome A :=
  match o with
  | Val a => ret a
  | Undefined | Null => Thrown TypeError
  end.

(** [l[i]] with the read recorded. *)
Definition index_read (l : list string) (i : nat) : outcome (nullable string) :=
  Returned (index l i) [(i, length l)].

(** An indexed read is in range. *)
Definition in_range (read : nat * nat) : Prop := read.1 < read.2.

End Js.

Import Js.

(** ** The data of the middleware *)

Section HttpCors.

(** JavaScript numbers are IEEE doubles; the code only ever turns one
    into a string, so the type and its [String(n)] rendering are kept
    abstract. *)
Context {number : Type} (number_to_string : number → string).

(** What a response header may be bound to: [boolean | number | string]. *)
Inductive header_value : Type :=
| HString (s : string)
| HBoolean (b : bool)
| HNumber (n : number).

(** [String(value)] *)
Definition js_String (v : header_value) : string :=
  match v with
  | HString s => s
  | HBoolean true => "true"
  | HBoolean false => "false"
  | HNumber n => number_to_string n
  end.

(** The response's header mapping; a key may be bound to a nullish value. *)
Abbreviation header_map := (gmap string (nullable header_value)).

(** [TShallotHTTPCorsOptions]: every field is optional.  [None] is a
    field the caller left out, [Some Undefined] one that is there and
    holds [undefined]: the object spread that applies the defaults tells
    them apart. *)
Record TShallotHTTPCorsOptions : Type := {
  allowHeaders : option (nullable string);
  allowedOrigins : option (nullable (list string));
  credentials : option (nullable bool);
  maxAge : option (nullable string);
  cacheControl : option (nullable string);
}.

(** The fields of [APIGatewayEvent] that the middleware reads. *)
Record APIGatewayEvent : Type := {
  httpMethod : nullable string;
  event_headers : gmap string (nullable string);
}.

(** [APIGatewayProxyResult]; all fields may be missing, as in the object
    [{}] that the middleware creates when there is no response. *)
Record APIGatewayProxyResult : Type := {
  statusCode : nullable number;
  headers : nullable header_map;
  multiValueHeaders : nullable (gmap string (list header_value));
  body : nullable string;
  isBase64Encoded : nullable bool;
}.

(** The request object that Shallot hands to a middleware hook: the
    event and the response being built. *)
Record ShallotRequest : Type := {
  event : APIGatewayEvent;
  response : nullable APIGatewayProxyResult;
}.

(** The object literal [{}] as a response. *)
Definition empty_result : APIGatewayProxyResult :=
  {| statusCode := Undefined; headers := Undefined;
     multiValueHeaders := Undefined; body := Undefined;
     isBase64Encoded := Undefined |}.

(** The object literal [{}] as options. *)
Definition empty_options : TShallotHTTPCorsOptions :=
  {| allowHeaders := None; allowedOrigins := None; credentials := None;
     maxAge := None; cacheControl := None |}.

(** [response.headers = h] *)
Definition set_headers (r : APIGatewayProxyResult) (h : nullable header_map)
  : APIGatewayProxyResult :=
  {| statusCode := statusCode r; headers := h;
     multiValueHeaders := multiValueHeaders r; body := body r;
     isBase64Encoded := isBase64Encoded r |}.

(** A string argument passed where [string | boolean | number] is taken. *)
Definition of_string (s : nullable string) : nullable header_value :=
  match s with
  | Val s => Val (HString s)
  | Undefined => Undefined
  | Null => Null
  end.

(** ** The functions of src/aws/index.ts *)

(** [setHeaderIfNotExists(response, header, value)].  The assignment is
    in place; the updated response is returned. *)
Definition setHeaderIfNotExists (response : APIGatewayProxyResult)
    (header : string) (value : nullable header_value)
  : APIGatewayProxyResult :=
  match value, headers response with
  | Val v, Val h =>
      if is_nullish (get h header)
      then set_headers response (Val (<[header := Val (HString (js_String v))]> h))
      else response
  | _, _ => response
  end.

(** [parseAllowedOrigin(event, allowedOrigins)] *)
Definition parseAllowedOrigin (event : APIGatewayEvent)
    (allowedOrigins : list string) : nullable string :=
  let inboundOrigin :=
    coalesce (get (event_headers event) "Origin")
             (get (event_headers event) "origin") in
  if match inboundOrigin with
     | Val o => includes allowedOrigins o
     | Undefined | Null => false
     end
  then inboundOrigin
  else if includes allowedOrigins "*" then Val "*"
  else index allowedOrigins 0.

(** The object that [finally] assigns to [config]:
    [{ allowedOrigins: ['*'], credentials: false, ...config }].
    Spreading [undefined] or [null] adds nothing. *)
Definition with_defaults (config : nullable TShallotHTTPCorsOptions)
  : TShallotHTTPCorsOptions :=
  let given := coalesce_val config empty_options in
  {| allowHeaders := spread None (allowHeaders given);
     allowedOrigins := spread (Some (Val ["*"])) (allowedOrigins given);
     credentials := spread (Some (Val false)) (credentials given);
     maxAge := spread None (maxAge given);
     cacheControl := spread None (cacheControl given) |}.

(** [x === true] *)
Definition is_true (x : nullable bool) : bool :=
  match x with
  | Val true => true
  | _ => false
  end.

(** [x === s] for a string literal [s] *)
Definition is_string (x : nullable string) (s : string) : bool :=
  match x with
  | Val m => String.eqb m s
  | Undefined | Null => false
  end.

(** The [finally] hook.  [config] is the variable of the enclosing
    closure, which the hook reassigns; the hook changes [request] in
    place.  Both are returned. *)
Definition finally (config : nullable TShallotHTTPCorsOptions)
    (request : ShallotRequest) : TShallotHTTPCorsOptions * ShallotRequest :=
  let config := with_defaults config in
  if negb (is_nullish (httpMethod (event request))) then
    let response := coalesce_val (response request) empty_result in
    let response :=
      set_headers response (Val (coalesce_val (headers response) ∅)) in
    let response :=
      setHeaderIfNotExists response "Access-Control-Allow-Headers"
        (of_string (prop (allowHeaders config))) in
    let response :=
      if is_true (prop (credentials config))
      then setHeaderIfNotExists response "Access-Control-Allow-Credentials"
             (Val (HBoolean true))
      else response in
    let response :=
      setHeaderIfNotExists response "Access-Control-Max-Age"
        (of_string (prop (maxAge config))) in
    let response :=
      match prop (allowedOrigins config) with
      | Val origins =>
          if nonempty origins
          then setHeaderIfNotExists response "Access-Control-Allow-Origin"
                 (of_string (parseAllowedOrigin (event request) origins))
          else response
      | Undefined | Null => response
      end in
    let response :=
      if is_string (httpMethod (event request)) "OPTIONS"
      then setHeaderIfNotExists response "Cache-Control"
             (of_string (prop (cacheControl config)))
      else response in
    (config, {| event := event request; response := Val response |})
  else (config, request).

(** ** The hook with its exceptions and indexed reads

    The same code once more, on a request as it is at run time: the
    event, and the header mapping of the event, may be [undefined] or
    [null], and a property read on them throws. *)

(** The event at run time. *)
Record RuntimeEvent : Type := {
  rt_httpMethod : nullable string;
  rt_headers : nullable (gmap string (nullable string));
}.

(** The request at run time. *)
Record RuntimeRequest : Type := {
  rt_event : nullable RuntimeEvent;
  rt_response : nullable APIGatewayProxyResult;
}.

(** An event of the declared type [APIGatewayEvent], at run time. *)
Definition runtime_event (ev : APIGatewayEvent) : RuntimeEvent :=
  {| rt_httpMethod := httpMethod ev; rt_headers := Val (event_headers ev) |}.

(** A request with an event of the declared type, at run time. *)
Definition runtime_request (request : ShallotRequest) : RuntimeRequest :=
  {| rt_event := Val (runtime_event (event request));
     rt_response := response request |}.

(** [parseAllowedOrigin(event, allowedOrigins)]: [event.headers['Origin']]
    is evaluated first and throws when [event.headers] is nullish. *)
Definition parseAllowedOrigin_exec (event : RuntimeEvent)
    (allowedOrigins : list string) : outcome (nullable string) :=
  bind (object_of (rt_headers event)) (λ event_headers,
  let inboundOrigin :=
    coalesce (get event_headers "Origin") (get event_headers "origin") in
  if match inboundOrigin with
     | Val o => includes allowedOrigins o
     | Undefined | Null => false
     end
  then ret inboundOrigin
  else if includes allowedOrigins "*" then ret (Val "*")
  else index_read allowedOrigins 0).

(** The [finally] hook: [request.event.httpMethod] throws when
    [request.event] is nullish. *)
Definition finally_exec (config : nullable TShallotHTTPCorsOptions)
    (request : RuntimeRequest)
  : outcome (TShallotHTTPCorsOptions * RuntimeRequest) :=
  let config := with_defaults config in
  bind (object_of (rt_event request)) (λ event,
  if negb (is_nullish (rt_httpMethod event)) then
    let response := coalesce_val (rt_response request) empty_result in
    let response :=
      set_headers response (Val (coalesce_val (headers response) ∅)) in
    let response :=
      setHeaderIfNotExists response "Access-Control-Allow-Headers"
        (of_string (prop (allowHeaders config))) in
    let response :=
      if is_true (prop (credentials config))
      then setHeaderIfNotExists response "Access-Control-Allow-Credentials"
             (Val (HBoolean true))
      else response in
    let response :=
      setHeaderIfNotExists response "Access-Control-Max-Age"
        (of_string (prop (maxAge config))) in
    bind
      match prop (allowedOrigins config) with
      | Val origins =>
          if nonempty origins
          then bind (parseAllowedOrigin_exec event origins) (λ origin,
               ret (setHeaderIfNotExists response
                      "Access-Control-Allow-Origin" (of_string origin)))
          else ret response
      | Undefined | Null => ret response
      end
      (λ response,
    let response :=
      if is_string (rt_httpMethod event) "OPTIONS"
      then setHeaderIfNotExists response "Cache-Control"
             (of_string (prop (cacheControl config)))
      else response in
    ret (config, {| rt_event := rt_event request;
                    rt_response := Val response |}))
  else ret (config, request)).

(** ** Views used to state the properties *)

(** The header mapping of a response that may be missing, with a missing
    mapping read as the empty one. *)
Definition headers_of (r : nullable APIGatewayProxyResult) : header_map :=
  coalesce_val (headers (coalesce_val r empty_result)) ∅.

(** The closure variable and the request after one run of the hook on the
    state left by an earlier one. *)
Definition finally_again (st : TShallotHTTPCorsOptions * ShallotRequest)
  : TShallotHTTPCorsOptions * ShallotRequest :=
  finally (Val st.1) st.2.

(** The fields of the options object as the caller supplied them: none
    when [config] is [undefined]. *)
Definition supplied (config : nullable TShallotHTTPCorsOptions)
  : TShallotHTTPCorsOptions :=
  coalesce_val config empty_options.

(** The response as the hook works on it: [request.response ?? {}]. *)
Definition response_of (request : ShallotRequest) : APIGatewayProxyResult :=
  coalesce_val (response request) empty_result.

(** The inbound origin as the specification words it: the value under the
    key "Origin"; when there is none, the value under "origin"; when there
    is none either, no inbound origin. *)
Definition inbound_origin (ev : APIGatewayEvent) : option string :=
  match event_headers ev !! "Origin" with
  | Some (Val o) => Some o
  | _ =>
      match event_headers ev !! "origin" with
      | Some (Val o) => Some o
      | _ => None
      end
  end.

(** The event with the origin moved from the key "origin" to "Origin". *)
Definition with_capitalised_origin (ev : APIGatewayEvent) (o : string)
  : APIGatewayEvent :=
  {| httpMethod := httpMethod ev;
     event_headers := <["Origin" := Val o]> (delete "origin" (event_headers ev)) |}.

(** The header names that the hook passes to [setHeaderIfNotExists]. *)
Definition cors_header_names : list string :=
  [ "Access-Control-Allow-Headers"; "Access-Control-Allow-Credentials";
    "Access-Control-Max-Age"; "Access-Control-Allow-Origin";
    "Cache-Control" ].

(** ** Guarded writes on a header mapping *)

(** What [setHeaderIfNotExists] does to the mapping. *)
Definition write (header : string) (value : nullable header_value)
    (h : header_map) : header_map :=
  match value with
  | Val v =>
      if is_nullish (get h header)
      then <[header := Val (HString (js_String v))]> h
      else h
  | Undefined | Null => h
  end.

(** A sequence of guarded writes, first to last. *)
Definition write_all (l : list (string * nullable header_value))
    (h : header_map) : header_map :=
  foldl (λ acc kv, write kv.1 kv.2 acc) h l.

(** [h] needs no write of [kv]: writing it would change nothing. *)
Definition settled (kv : string * nullable header_value) (h : header_map)
  : Prop :=
  is_nullish kv.2 = true ∨ is_nullish (get h kv.1) = false.

(** The five calls of the hook, with a call that is skipped written as a
    call with the value [undefined]. *)
Definition assignments (config : TShallotHTTPCorsOptions)
    (ev : APIGatewayEvent) : list (string * nullable header_value) :=
  [ ("Access-Control-Allow-Headers", of_string (prop (allowHeaders config)));
    ("Access-Control-Allow-Credentials",
      if is_true (prop (credentials config))
      then Val (HBoolean true) else Undefined);
    ("Access-Control-Max-Age", of_string (prop (maxAge config)));
    ("Access-Control-Allow-Origin",
      match prop (allowedOrigins config) with
      | Val origins =>
          if nonempty origins
          then of_string (parseAllowedOrigin ev origins) else Undefined
      | Undefined | Null => Undefined
      end);
    ("Cache-Control",
      if is_string (httpMethod ev) "OPTIONS"
      then of_string (prop (cacheControl config)) else Undefined) ].

(** ** The requests and options of the test-suite *)

(** [mockEvent]: a method, if any, and the origin under one header key. *)
Definition mockEvent (method : nullable string) (key origin : string)
  : APIGatewayEvent :=
  {| httpMethod := method; event_headers := {[ key := Val origin ]} |}.

(** What [mockHandler] resolves to: [{ statusCode, body: '' }]. *)
Definition mockHandler_result (status : number) : APIGatewayProxyResult :=
  {| statusCode := Val status; headers := Undefined;
     multiValueHeaders := Undefined; body := Val "";
     isBase64Encoded := Undefined |}.

(** What [handlerWithResHeaders] resolves to: the same with the headers
    [{ 'X-Test': '' }]. *)
Definition handlerWithResHeaders_result (status : number)
  : APIGatewayProxyResult :=
  set_headers (mockHandler_result status)
    (Val {[ "X-Test" := Val (HString "") ]}).

(** Options that give [allowedOrigins] only. *)
Definition options_allowedOrigins (l : list string) : TShallotHTTPCorsOptions :=
  {| allowHeaders := None; allowedOrigins := Some (Val l);
     credentials := None; maxAge := None; cacheControl := None |}.

(** Options that give [credentials] only. *)
Definition options_credentials (b : bool) : TShallotHTTPCorsOptions :=
  {| allowHeaders := None; allowedOrigins := None;
     credentials := Some (Val b); maxAge := None; cacheControl := None |}.

(** Options that give [maxAge] only. *)
Definition options_maxAge (s : string) : TShallotHTTPCorsOptions :=
  {| allowHeaders := None; allowedOrigins := None; credentials := None;
     maxAge := Some (Val s); cacheControl := None |}.

(** Options that give [cacheControl] only. *)
Definition options_cacheControl (s : string) : TShallotHTTPCorsOptions :=
  {| allowHeaders := None; allowedOrigins := None; credentials := None;
     maxAge := None; cacheControl := Some (Val s) |}.

(** ** Facts on the JavaScript primitives *)

Lemma includes_elem_of (l : list string) (x : string) :
  includes l x = true ↔ x ∈ l.
Proof.
  induction l as [|y l IH]; simpl.
  - split; [discriminate | intros H; inversion H].
  - rewrite elem_of_cons. destruct (String.eqb y x) eqn:E.
    + apply String.eqb_eq in E. subst. tauto.
    + apply String.eqb_neq in E. rewrite IH. split; [tauto|].
      intros [->|H]; [congruence | exact H].
Qed.

Lemma includes_not_elem_of (l : list string) (x : string) :
  includes l x = false ↔ x ∉ l.
Proof.
  rewrite <- includes_elem_of. destruct (includes l x); split; congruence.
Qed.

Lemma is_nullish_false {A} (x : nullable A) :
  is_nullish x = false ↔ ∃ a, x = Val a.
Proof.
  destruct x; simpl; split; try discriminate; eauto;
    intros [a Ha]; discriminate.
Qed.

(** ** Facts on guarded writes *)

Lemma set_headers_twice (r : APIGatewayProxyResult) (h h' : nullable header_map) :
  set_headers (set_headers r h) h' = set_headers r h'.
Proof. reflexivity. Qed.

Lemma setHeaderIfNotExists_write (r : APIGatewayProxyResult) (h : header_map)
    (k : string) (v : nullable header_value) :
  setHeaderIfNotExists (set_headers r (Val h)) k v
  = set_headers r (Val (write k v h)).
Proof.
  unfold setHeaderIfNotExists, write; simpl.
  destruct v as [| |v]; try reflexivity.
  destruct (is_nullish (get h k)); reflexivity.
Qed.


Lemma write_lookup_ne (k j : string) (v : nullable header_value)
    (h : header_map) :
  k ≠ j → write k v h !! j = h !! j.
Proof.
  intros Hne. unfold write. destruct v as [| |v]; try reflexivity.
  destruct (is_nullish (get h k)); [|reflexivity].
  apply lookup_insert_ne, Hne.
Qed.

Lemma write_lookup_bound (k j : string) (v : nullable header_value)
    (h : header_map) (x : header_value) :
  h !! j = Some (Val x) → write k v h !! j = Some (Val x).
Proof.
  intros Hj. destruct (decide (k = j)) as [->|Hne].
  - unfold write, get. rewrite Hj. simpl. destruct v; exact Hj.
  - rewrite write_lookup_ne by exact Hne. exact Hj.
Qed.

Lemma write_lookup_fresh (k : string) (v : header_value) (h : header_map) :
  is_nullish (get h k) = true →
  write k (Val v) h !! k = Some (Val (HString (js_String v))).
Proof.
  intros Hk. unfold write. rewrite Hk. apply lookup_insert_eq.
Qed.

Lemma write_settled (kv : string * nullable header_value) (h : header_map) :
  settled kv h → write kv.1 kv.2 h = h.
Proof.
  unfold settled, write. destruct kv as [k [| |v]]; simpl; try reflexivity.
  intros [H|H]; [discriminate | rewrite H; reflexivity].
Qed.

Lemma write_settles (kv : string * nullable header_value) (h : header_map) :
  settled kv (write kv.1 kv.2 h).
Proof.
  unfold settled. destruct kv as [k [| |v]]; simpl; try (left; reflexivity).
  right. destruct (is_nullish (get h k)) eqn:E; [|exact E].
  unfold get. rewrite lookup_insert_eq. reflexivity.
Qed.

Lemma write_keeps_settled (kv : string * nullable header_value) (k : string)
    (v : nullable header_value) (h : header_map) :
  settled kv h → settled kv (write k v h).
Proof.
  unfold settled. intros [H|H]; [left; exact H | right].
  apply is_nullish_false in H as [x Hx]. unfold get in *.
  destruct (h !! kv.1) as [[| |y]|] eqn:E; simpl in Hx; try discriminate.
  rewrite (write_lookup_bound k kv.1 v h y E). reflexivity.
Qed.

Lemma write_all_keeps_settled (kv : string * nullable header_value)
    (l : list (string * nullable header_value)) (h : header_map) :
  settled kv h → settled kv (write_all l h).
Proof.
  revert h. induction l as [|a l IH]; intros h Hs; simpl; [exact Hs|].
  apply IH, write_keeps_settled, Hs.
Qed.

Lemma write_all_settles (l : list (string * nullable header_value))
    (h : header_map) :
  Forall (λ kv, settled kv (write_all l h)) l.
Proof.
  revert h. induction l as [|a l IH]; intros h; simpl; constructor.
  - apply write_all_keeps_settled, write_settles.
  - apply IH.
Qed.

Lemma write_all_settled (l : list (string * nullable header_value))
    (h : header_map) :
  Forall (λ kv, settled kv h) l → write_all l h = h.
Proof.
  induction 1 as [|a l Ha Hl IH]; simpl; [reflexivity|].
  rewrite write_settled by exact Ha. exact IH.
Qed.

Lemma write_all_idempotent (l : list (string * nullable header_value))
    (h : header_map) :
  write_all l (write_all l h) = write_all l h.
Proof. apply write_all_settled, write_all_settles. Qed.

Lemma write_all_lookup_other (l : list (string * nullable header_value))
    (h : header_map) (j : string) :
  j ∉ l.*1 → write_all l h !! j = h !! j.
Proof.
  revert h. induction l as [|[k v] l IH]; intros h Hj; simpl; [reflexivity|].
  rewrite fmap_cons, not_elem_of_cons in Hj. destruct Hj as [Hne Hj].
  rewrite IH by exact Hj. apply write_lookup_ne. simpl in *.
  intros E. apply Hne. symmetry. exact E.
Qed.

Lemma write_all_lookup_bound (l : list (string * nullable header_value))
    (h : header_map) (j : string) (x : header_value) :
  h !! j = Some (Val x) → write_all l h !! j = Some (Val x).
Proof.
  revert h. induction l as [|[k v] l IH]; intros h Hj; simpl; [exact Hj|].
  apply IH, write_lookup_bound, Hj.
Qed.

Lemma assignments_names (config : TShallotHTTPCorsOptions)
    (ev : APIGatewayEvent) :
  (assignments config ev).*1 = cors_header_names.
Proof. reflexivity. Qed.

(** The hook on a request with a method, as a sequence of guarded writes
    on the header mapping. *)
Lemma finally_with_method (config : nullable TShallotHTTPCorsOptions)
    (request : ShallotRequest) :
  is_nullish (httpMethod (event request)) = false →
  finally config request
  = (with_defaults config,
     {| event := event request;
        response :=
          Val (set_headers (response_of request)
                 (Val (write_all
                         (assignments (with_defaults config) (event request))
                         (headers_of (response request))))) |}).
Proof.
  intros Hm. unfold finally. rewrite Hm.
  generalize (with_defaults config) as c. intros c.
  change (negb false) with true. cbv iota.
  f_equal. f_equal. f_equal.
  unfold headers_of, response_of.
  generalize (coalesce_val (headers (coalesce_val (response request) empty_result)) ∅).
  generalize (coalesce_val (response request) empty_result).
  intros r h. unfold assignments, write_all, foldl, fst, snd.
  rewrite setHeaderIfNotExists_write.
  destruct (is_true (prop (credentials c)));
    rewrite !setHeaderIfNotExists_write;
    (destruct (prop (allowedOrigins c)) as [| |origins];
      [| |destruct (nonempty origins)]);
    destruct (is_string (httpMethod (event request)) "OPTIONS");
    rewrite ?setHeaderIfNotExists_write; reflexivity.
Qed.

Lemma finally_without_method (config : nullable TShallotHTTPCorsOptions)
    (request : ShallotRequest) :
  is_nullish (httpMethod (event request)) = true →
  finally config request = (with_defaults config, request).
Proof. intros Hm. unfold finally. rewrite Hm. reflexivity. Qed.

Lemma write_lookup_cong (k : string) (v : nullable header_value)
    (h h' : header_map) :
  h !! k = h' !! k → write k v h !! k = write k v h' !! k.
Proof.
  intros E. unfold write, get. rewrite E.
  destruct v as [| |v]; try exact E.
  destruct (is_nullish (default Undefined (h' !! k))); [|exact E].
  rewrite !lookup_insert_eq. reflexivity.
Qed.

(** With pairwise distinct header names, what a sequence of guarded
    writes leaves under a name is what the write for that name alone
    would leave. *)
Lemma write_all_lookup (l : list (string * nullable header_value))
    (h : header_map) (k : string) (v : nullable header_value) :
  NoDup l.*1 → (k, v) ∈ l → write_all l h !! k = write k v h !! k.
Proof.
  revert h. induction l as [|[k' v'] l IH]; intros h Hnd Hin.
  - inversion Hin.
  - rewrite fmap_cons in Hnd. apply NoDup_cons in Hnd as [Hk' Hnd].
    apply elem_of_cons in Hin as [E|Hin]; simpl.
    + inversion E; subst k' v'.
      apply write_all_lookup_other. exact Hk'.
    + assert (k' ≠ k) as Hne.
      { intros ->. apply Hk'. apply list_elem_of_fmap.
        exists (k, v). split; [reflexivity | exact Hin]. }
      rewrite (IH _ Hnd Hin). apply write_lookup_cong.
      apply write_lookup_ne, Hne.
Qed.

Lemma cors_header_names_NoDup : NoDup cors_header_names.
Proof. apply (bool_decide_unpack _). vm_compute. exact I. Qed.

Lemma assignments_lookup (config : TShallotHTTPCorsOptions)
    (ev : APIGatewayEvent) (h : header_map) (k : string)
    (v : nullable header_value) :
  (k, v) ∈ assignments config ev →
  write_all (assignments config ev) h !! k = write k v h !! k.
Proof.
  apply write_all_lookup. rewrite assignments_names.
  exact cors_header_names_NoDup.
Qed.

Lemma with_defaults_supplied (config : nullable TShallotHTTPCorsOptions) :
  with_defaults config = with_defaults (Val (supplied config)).
Proof. reflexivity. Qed.


Lemma spread_twice {A} (base over : option A) :
  spread base (spread base over) = spread base over.
Proof. destruct over, base; reflexivity. Qed.

Lemma with_defaults_idempotent (config : nullable TShallotHTTPCorsOptions) :
  with_defaults (Val (with_defaults config)) = with_defaults config.
Proof.
  unfold with_defaults. simpl. rewrite !spread_twice. reflexivity.
Qed.

Lemma with_defaults_fields (config : nullable TShallotHTTPCorsOptions) :
  allowHeaders (with_defaults config) = allowHeaders (supplied config)
  ∧ maxAge (with_defaults config) = maxAge (supplied config)
  ∧ cacheControl (with_defaults config) = cacheControl (supplied config).
Proof.
  unfold with_defaults, supplied; simpl.
  destruct (coalesce_val config empty_options) as [a b c d e]; simpl.
  destruct a, d, e; repeat split; reflexivity.
Qed.

Lemma headers_of_set_headers (r : APIGatewayProxyResult) (h : header_map) :
  headers_of (Val (set_headers r (Val h))) = h.
Proof. reflexivity. Qed.

(** The header mapping after the hook ran on a request with a method. *)
Lemma finally_headers (config : nullable TShallotHTTPCorsOptions)
    (request : ShallotRequest) :
  is_nullish (httpMethod (event request)) = false →
  headers_of (response (finally config request).2)
  = write_all (assignments (with_defaults config) (event request))
      (headers_of (response request)).
Proof.
  intros Hm. rewrite finally_with_method by exact Hm. reflexivity.
Qed.

Lemma parseAllowedOrigin_wildcard_only (ev : APIGatewayEvent) :
  parseAllowedOrigin ev ["*"] = Val "*".
Proof.
  unfold parseAllowedOrigin.
  destruct (coalesce _ _) as [| |o]; try reflexivity.
  destruct (includes ["*"] o) eqn:E; [|reflexivity].
  apply includes_elem_of, list_elem_of_singleton in E. subst o. reflexivity.
Qed.

Lemma inbound_origin_coalesce (ev : APIGatewayEvent) (o : string) :
  inbound_origin ev = Some o
  ↔ coalesce (get (event_headers ev) "Origin")
             (get (event_headers ev) "origin") = Val o.
Proof.
  unfold inbound_origin, get.
  destruct (event_headers ev !! "Origin") as [[| |a]|];
    destruct (event_headers ev !! "origin") as [[| |b]|]; simpl;
    split; intros E; try discriminate; inversion E; reflexivity.
Qed.


(** ** Origin resolution *)

(** C1: on a non-empty list of allowed origins, [parseAllowedOrigin]
    returns the inbound origin when that origin is a member of the list;
    otherwise "*" when the list contains "*"; otherwise the first element
    of the list.  The inbound origin is read under "Origin" and, when
    there is none, under "origin": an event that carries the origin only
    under "origin" resolves as the same event with the origin under
    "Origin". *)
Theorem parseAllowedOrigin_resolves (ev : APIGatewayEvent) (first : string)
    (rest : list string) :
  let allowed := first :: rest in
  (∀ o, inbound_origin ev = Some o → o ∈ allowed →
        parseAllowedOrigin ev allowed = Val o)
  ∧ ((∀ o, inbound_origin ev = Some o → o ∉ allowed) → "*" ∈ allowed →
     parseAllowedOrigin ev allowed = Val "*")
  ∧ ((∀ o, inbound_origin ev = Some o → o ∉ allowed) → "*" ∉ allowed →
     parseAllowedOrigin ev allowed = Val first)
  ∧ (∀ o, is_nullish (get (event_headers ev) "Origin") = true →
          get (event_headers ev) "origin" = Val o →
          parseAllowedOrigin ev allowed
          = parseAllowedOrigin (with_capitalised_origin ev o) allowed).
Proof.
  intros allowed. unfold parseAllowedOrigin.
  repeat split.
  - intros o Ho Hin. apply inbound_origin_coalesce in Ho. rewrite Ho.
    apply includes_elem_of in Hin. rewrite Hin. reflexivity.
  - intros Hout Hstar. apply includes_elem_of in Hstar.
    destruct (coalesce _ _) as [| |o] eqn:E; rewrite ?Hstar; try reflexivity.
    apply inbound_origin_coalesce, Hout, includes_not_elem_of in E.
    rewrite E. reflexivity.
  - intros Hout Hstar. apply includes_not_elem_of in Hstar.
    destruct (coalesce _ _) as [| |o] eqn:E; rewrite ?Hstar; try reflexivity.
    apply inbound_origin_coalesce, Hout, includes_not_elem_of in E.
    rewrite E. reflexivity.
  - intros o Hnone Hlow.
    assert (coalesce (get (event_headers ev) "Origin")
                     (get (event_headers ev) "origin") = Val o) as ->.
    { rewrite Hlow. destruct (get (event_headers ev) "Origin");
        [reflexivity | reflexivity | discriminate]. }
    assert (coalesce
              (get (event_headers (with_capitalised_origin ev o)) "Origin")
              (get (event_headers (with_capitalised_origin ev o)) "origin")
            = Val o) as ->; [|reflexivity].
    unfold with_capitalised_origin, get. cbn [event_headers].
    rewrite lookup_insert_eq. reflexivity.
Qed.

(** ** Headers that are already there *)

(** C2: a header name bound to a non-null value before the hook runs is
    bound to the same value afterwards, whatever the options, the request
    and the name. *)
Theorem finally_keeps_bound_headers
    (config : nullable TShallotHTTPCorsOptions) (request : ShallotRequest)
    (name : string) (v : header_value) :
  headers_of (response request) !! name = Some (Val v) →
  headers_of (response (finally config request).2) !! name = Some (Val v).
Proof.
  intros Hv. destruct (is_nullish (httpMethod (event request))) eqn:Hm.
  - rewrite finally_without_method by exact Hm. exact Hv.
  - rewrite finally_headers by exact Hm.
    apply write_all_lookup_bound, Hv.
Qed.

(** C3: when the request has no HTTP method, the hook leaves the request
    as it was: the response, if any, and its header mapping, if any, are
    the same, and none is created. *)
Theorem finally_without_method_keeps_request
    (config : nullable TShallotHTTPCorsOptions) (request : ShallotRequest) :
  is_nullish (httpMethod (event request)) = true →
  (finally config request).2 = request.
Proof.
  intros Hm. rewrite finally_without_method by exact Hm. reflexivity.
Qed.

(** C4: running the hook a second time, on the closure variable and the
    request that the first run left, changes nothing. *)
Theorem finally_idempotent (config : nullable TShallotHTTPCorsOptions)
    (request : ShallotRequest) :
  finally_again (finally config request) = finally config request.
Proof.
  unfold finally_again.
  destruct (is_nullish (httpMethod (event request))) eqn:Hm.
  - rewrite (finally_without_method config) by exact Hm. cbn [fst snd].
    rewrite finally_without_method by exact Hm.
    rewrite with_defaults_idempotent. reflexivity.
  - rewrite (finally_with_method config) by exact Hm. cbn [fst snd].
    rewrite finally_with_method by exact Hm. cbn [event response].
    rewrite with_defaults_idempotent. unfold response_of.
    cbn [response coalesce_val].
    rewrite set_headers_twice, headers_of_set_headers.
    rewrite write_all_idempotent. reflexivity.
Qed.

(** ** What each of the five calls leaves *)

Lemma is_string_true (x : nullable string) (s : string) :
  is_string x s = true ↔ x = Val s.
Proof.
  destruct x as [| |m]; simpl; try (split; discriminate).
  rewrite String.eqb_eq. split; [intros -> | intros E; inversion E];
    reflexivity.
Qed.

Lemma is_true_defaulted (x : option (nullable bool)) :
  is_true (prop (spread (Some (Val false)) x)) = is_true (prop x).
Proof. destruct x; reflexivity. Qed.

Lemma is_true_with_defaults (config : nullable TShallotHTTPCorsOptions) :
  is_true (prop (credentials (with_defaults config)))
  = is_true (prop (credentials (supplied config))).
Proof. apply is_true_defaulted. Qed.

Lemma is_true_true (x : nullable bool) : is_true x = true ↔ x = Val true.
Proof.
  destruct x as [| |[]]; simpl; split; intros E; try discriminate;
    reflexivity.
Qed.

Lemma lookup_credentials (c : TShallotHTTPCorsOptions) (ev : APIGatewayEvent)
    (h : header_map) :
  write_all (assignments c ev) h !! "Access-Control-Allow-Credentials"
  = write "Access-Control-Allow-Credentials"
      (if is_true (prop (credentials c)) then Val (HBoolean true)
       else Undefined) h
    !! "Access-Control-Allow-Credentials".
Proof.
  apply assignments_lookup. unfold assignments.
  apply list_elem_of_further, list_elem_of_here.
Qed.

Lemma lookup_origin (c : TShallotHTTPCorsOptions) (ev : APIGatewayEvent)
    (h : header_map) :
  write_all (assignments c ev) h !! "Access-Control-Allow-Origin"
  = write "Access-Control-Allow-Origin"
      match prop (allowedOrigins c) with
      | Val origins =>
          if nonempty origins
          then of_string (parseAllowedOrigin ev origins) else Undefined
      | Undefined | Null => Undefined
      end h
    !! "Access-Control-Allow-Origin".
Proof.
  apply assignments_lookup. unfold assignments.
  do 3 apply list_elem_of_further. apply list_elem_of_here.
Qed.

Lemma lookup_cache_control (c : TShallotHTTPCorsOptions)
    (ev : APIGatewayEvent) (h : header_map) :
  write_all (assignments c ev) h !! "Cache-Control"
  = write "Cache-Control"
      (if is_string (httpMethod ev) "OPTIONS"
       then of_string (prop (cacheControl c)) else Undefined) h
    !! "Cache-Control".
Proof.
  apply assignments_lookup. unfold assignments.
  do 4 apply list_elem_of_further. apply list_elem_of_here.
Qed.

Lemma write_lookup_settled (k : string) (v : nullable header_value)
    (h : header_map) :
  is_nullish (get h k) = false → write k v h = h.
Proof. intros H. apply (write_settled (k, v)). right. exact H. Qed.

(** ** The individual headers *)

(** C5: with an empty list of allowed origins the hook does not write
    Access-Control-Allow-Origin: what the header mapping holds under that
    name is the same before and after, so the name is in the mapping
    afterwards exactly when it was before. *)
Theorem finally_empty_allowedOrigins (c : TShallotHTTPCorsOptions)
    (request : ShallotRequest) :
  allowedOrigins c = Some (Val []) →
  headers_of (response (finally (Val c) request).2)
    !! "Access-Control-Allow-Origin"
  = headers_of (response request) !! "Access-Control-Allow-Origin"
  ∧ ("Access-Control-Allow-Origin"
       ∈ dom (headers_of (response (finally (Val c) request).2))
     ↔ "Access-Control-Allow-Origin" ∈ dom (headers_of (response request))).
Proof.
  intros Hempty.
  assert (headers_of (response (finally (Val c) request).2)
            !! "Access-Control-Allow-Origin"
          = headers_of (response request) !! "Access-Control-Allow-Origin")
    as Heq.
  { destruct (is_nullish (httpMethod (event request))) eqn:Hm.
    - rewrite finally_without_method by exact Hm. reflexivity.
    - rewrite finally_headers by exact Hm. rewrite lookup_origin.
      unfold with_defaults. cbn [allowedOrigins coalesce_val].
      rewrite Hempty. reflexivity. }
  split; [exact Heq|]. rewrite !elem_of_dom, Heq. reflexivity.
Qed.

(** C6: the hook writes Cache-Control only when the method is the string
    "OPTIONS", the option [cacheControl] holds a value and the header is
    not yet bound to a non-null value; then it writes that value.  With
    any other method, or none, the header is left as it was, also when
    [cacheControl] is configured. *)
Theorem finally_cache_control (config : nullable TShallotHTTPCorsOptions)
    (request : ShallotRequest) :
  let before := headers_of (response request) in
  let after := headers_of (response (finally config request).2) in
  (∀ s, httpMethod (event request) = Val "OPTIONS" →
        prop (cacheControl (supplied config)) = Val s →
        is_nullish (get before "Cache-Control") = true →
        after !! "Cache-Control" = Some (Val (HString s)))
  ∧ (httpMethod (event request) ≠ Val "OPTIONS" →
     after !! "Cache-Control" = before !! "Cache-Control")
  ∧ (is_nullish (prop (cacheControl (supplied config))) = true →
     after !! "Cache-Control" = before !! "Cache-Control")
  ∧ (is_nullish (get before "Cache-Control") = false →
     after !! "Cache-Control" = before !! "Cache-Control").
Proof.
  intros before after. subst before after.
  destruct (with_defaults_fields config) as (_ & _ & Hcc).
  destruct (is_nullish (httpMethod (event request))) eqn:Hm.
  - rewrite finally_without_method by exact Hm. cbn [snd].
    repeat split; try reflexivity.
    intros s Hopt. rewrite Hopt in Hm. discriminate.
  - rewrite finally_headers by exact Hm. rewrite lookup_cache_control.
    rewrite Hcc. repeat split.
    + intros s Hopt Hs Hfree. apply is_string_true in Hopt.
      rewrite Hopt, Hs. apply write_lookup_fresh. exact Hfree.
    + intros Hopt. destruct (is_string _ _) eqn:E; [|reflexivity].
      apply is_string_true in E. contradiction.
    + intros Hnone. destruct (is_string _ _); [|reflexivity].
      destruct (prop (cacheControl (supplied config)));
        [reflexivity | reflexivity | discriminate].
    + intros Hbound. rewrite write_lookup_settled by exact Hbound.
      reflexivity.
Qed.

(** C7: on a request with a method, when the option [credentials] is
    [true] the hook binds Access-Control-Allow-Credentials to the string
    "true", unless the header is already bound to a non-null value; when
    [credentials] is [false], left out or anything but [true], the header
    is left as it was. *)
Theorem finally_credentials (config : nullable TShallotHTTPCorsOptions)
    (request : ShallotRequest) (m : string) :
  httpMethod (event request) = Val m →
  let before := headers_of (response request) in
  let after := headers_of (response (finally config request).2) in
  (prop (credentials (supplied config)) = Val true →
   is_nullish (get before "Access-Control-Allow-Credentials") = true →
   after !! "Access-Control-Allow-Credentials" = Some (Val (HString "true")))
  ∧ (prop (credentials (supplied config)) ≠ Val true →
     after !! "Access-Control-Allow-Credentials"
     = before !! "Access-Control-Allow-Credentials").
Proof.
  intros Hmeth before after. subst before after.
  assert (is_nullish (httpMethod (event request)) = false) as Hm
    by (rewrite Hmeth; reflexivity).
  rewrite finally_headers by exact Hm. rewrite lookup_credentials.
  rewrite is_true_with_defaults. split.
  - intros Htrue Hfree. apply is_true_true in Htrue. rewrite Htrue.
    apply (write_lookup_fresh _ (HBoolean true)). exact Hfree.
  - intros Hnot. destruct (is_true _) eqn:E; [|reflexivity].
    apply is_true_true in E. destruct (Hnot E).
Qed.

(** ** Defaults *)

Lemma finally_config (config : nullable TShallotHTTPCorsOptions)
    (request : ShallotRequest) :
  (finally config request).1 = with_defaults config.
Proof.
  unfold finally. destruct (negb _); reflexivity.
Qed.

Lemma assignments_defaults (ev : APIGatewayEvent) :
  assignments (with_defaults (Val empty_options)) ev
  = [ ("Access-Control-Allow-Headers", Undefined);
      ("Access-Control-Allow-Credentials", Undefined);
      ("Access-Control-Max-Age", Undefined);
      ("Access-Control-Allow-Origin", Val (HString "*"));
      ("Cache-Control", Undefined) ].
Proof.
  unfold assignments.
  change (prop (allowedOrigins (with_defaults (Val empty_options))))
    with (Val ["*"]).
  change (nonempty ["*"]) with true. cbv iota.
  rewrite parseAllowedOrigin_wildcard_only.
  destruct (is_string _ _); reflexivity.
Qed.

(** C8: the hook applies the defaults itself.  Options that leave out
    [allowedOrigins] and [credentials] get the list with the one entry "*"
    and [false]; the fields that were given stay.  So with no options at
    all, on a request with a method (any method: "GET" as well as
    "OPTIONS") and a header mapping that is empty or missing, the header
    mapping afterwards holds one entry, Access-Control-Allow-Origin bound
    to "*". *)
Theorem finally_applies_defaults :
  (∀ (c : TShallotHTTPCorsOptions) (request : ShallotRequest),
      allowedOrigins c = None → credentials c = None →
      allowedOrigins (finally (Val c) request).1 = Some (Val ["*"])
      ∧ credentials (finally (Val c) request).1 = Some (Val false)
      ∧ allowHeaders (finally (Val c) request).1 = allowHeaders c
      ∧ maxAge (finally (Val c) request).1 = maxAge c
      ∧ cacheControl (finally (Val c) request).1 = cacheControl c)
  ∧ (∀ (config : nullable TShallotHTTPCorsOptions)
       (request : ShallotRequest) (m : string),
        supplied config = empty_options →
        httpMethod (event request) = Val m →
        headers_of (response request) = ∅ →
        headers_of (response (finally config request).2)
        = {[ "Access-Control-Allow-Origin" := Val (HString "*") ]}).
Proof.
  split.
  - intros c request Ho Hc. rewrite finally_config.
    destruct (with_defaults_fields (Val c)) as (Ha & Hm & Hcc).
    unfold with_defaults in *. cbn [coalesce_val supplied] in *.
    cbn [allowedOrigins credentials allowHeaders maxAge cacheControl] in *.
    rewrite Ho, Hc. repeat split; assumption.
  - intros config request m Hsup Hmeth Hempty.
    rewrite finally_headers by (rewrite Hmeth; reflexivity).
    rewrite with_defaults_supplied, Hsup, Hempty, assignments_defaults.
    unfold write_all, foldl, write, get, fst, snd.
    rewrite lookup_empty. cbn [default is_nullish js_String].
    apply insert_empty.
Qed.

(** ** No error *)

Lemma bind_ret {A B} (a : A) (k : A → outcome B) : bind (ret a) k = k a.
Proof. unfold bind, ret. destruct (k a); reflexivity. Qed.

Lemma bind_Returned {A B} (a : A) (reads : list (nat * nat))
    (k : A → outcome B) (b : B) :
  k a = ret b → bind (Returned a reads) k = Returned b reads.
Proof.
  intros E. unfold bind. rewrite E. unfold ret. rewrite app_nil_r.
  reflexivity.
Qed.

(** On an event of the declared type the run of [parseAllowedOrigin]
    returns what the function returns, and reads the list at index 0 or
    not at all. *)
Lemma parseAllowedOrigin_exec_typed (ev : APIGatewayEvent) (l : list string) :
  ∃ reads,
    parseAllowedOrigin_exec (runtime_event ev) l
    = Returned (parseAllowedOrigin ev l) reads
    ∧ (reads = [] ∨ reads = [(0, length l)]).
Proof.
  unfold parseAllowedOrigin_exec, parseAllowedOrigin, runtime_event.
  cbn [rt_headers object_of]. rewrite bind_ret.
  destruct (match coalesce _ _ with Val o => includes l o | _ => false end).
  - exists []. split; [reflexivity | left; reflexivity].
  - destruct (includes l "*").
    + exists []. split; [reflexivity | left; reflexivity].
    + exists [(0, length l)]. split; [reflexivity | right; reflexivity].
Qed.

(** C9: the hook throws nothing and reads no array out of range.  Run
    with its exceptions and indexed reads spelled out, on any options and
    any request whose event is of the declared type, the hook returns, and
    returns what [finally] gives.  It makes no indexed read, or one: index
    0 of the list of allowed origins in effect, and then the guard on the
    length of that list has passed, so that the read is in range. *)
Theorem finally_exec_no_error (config : nullable TShallotHTTPCorsOptions)
    (request : ShallotRequest) :
  ∃ reads,
    finally_exec config (runtime_request request)
    = Returned ((finally config request).1,
                runtime_request (finally config request).2) reads
    ∧ Forall in_range reads
    ∧ (reads = []
       ∨ ∃ origins,
           prop (allowedOrigins (finally config request).1) = Val origins
           ∧ nonempty origins = true
           ∧ reads = [(0, length origins)]).
Proof.
  rewrite finally_config.
  unfold finally_exec, finally, runtime_request.
  cbn [rt_event rt_response object_of]. rewrite bind_ret.
  cbn [runtime_event rt_httpMethod].
  generalize (with_defaults config) as c. intros c.
  destruct (negb (is_nullish (httpMethod (event request)))).
  2: { exists []. split; [reflexivity|]. split; [constructor | left; reflexivity]. }
  cbv zeta.
  destruct (prop (allowedOrigins c)) as [| |origins] eqn:Ho.
  1,2: rewrite bind_ret; exists [];
       (split; [reflexivity|]); (split; [constructor | left; reflexivity]).
  destruct (nonempty origins) eqn:Hlen.
  2: { rewrite bind_ret. exists []. split; [reflexivity|].
       split; [constructor | left; reflexivity]. }
  destruct (parseAllowedOrigin_exec_typed (event request) origins)
    as (reads & Hrun & Hreads).
  rewrite Hrun. exists reads. split.
  - erewrite (bind_Returned _ reads) by reflexivity.
    erewrite (bind_Returned _ reads) by reflexivity.
    reflexivity.
  - destruct Hreads as [->| ->].
    + split; [constructor | left; reflexivity].
    + split.
      * constructor; [|constructor]. unfold in_range, nonempty in *.
        cbn [fst snd]. apply Nat.ltb_lt. exact Hlen.
      * right. exists origins. split; [reflexivity|].
        split; [exact Hlen | reflexivity].
Qed.

(** ** Frame *)

(** C10: on a request with a method, the hook writes under no header
    name but the five of [cors_header_names]: every other entry of the
    header mapping is as before, and so are the other fields of the
    response (status code, body, multi-value headers, base-64 flag) and
    the event. *)
Theorem finally_frame (config : nullable TShallotHTTPCorsOptions)
    (request : ShallotRequest) (m : string) :
  httpMethod (event request) = Val m →
  let after := (finally config request).2 in
  (∀ name, name ∉ cors_header_names →
           headers_of (response after) !! name
           = headers_of (response request) !! name)
  ∧ statusCode (response_of after) = statusCode (response_of request)
  ∧ body (response_of after) = body (response_of request)
  ∧ multiValueHeaders (response_of after)
    = multiValueHeaders (response_of request)
  ∧ isBase64Encoded (response_of after)
    = isBase64Encoded (response_of request)
  ∧ event after = event request.
Proof.
  intros Hmeth after. subst after.
  assert (is_nullish (httpMethod (event request)) = false) as Hm
    by (rewrite Hmeth; reflexivity).
  split.
  - intros name Hname. rewrite finally_headers by exact Hm.
    apply write_all_lookup_other. rewrite assignments_names. exact Hname.
  - rewrite finally_with_method by exact Hm. repeat split.
Qed.

(** * Further properties of the three functions *)

(** ** Facts used below *)

Lemma set_headers_id (r : APIGatewayProxyResult) (h : header_map) :
  headers r = Val h → set_headers r (Val h) = r.
Proof. destruct r as [sc hd mv bd b64]. simpl. intros ->. reflexivity. Qed.

Lemma setHeaderIfNotExists_no_mapping (r : APIGatewayProxyResult)
    (k : string) (v : nullable header_value) :
  is_nullish (headers r) = true → setHeaderIfNotExists r k v = r.
Proof.
  unfold setHeaderIfNotExists. intros H.
  destruct v as [| |v]; try reflexivity.
  destruct (headers r); [reflexivity | reflexivity | discriminate].
Qed.

Lemma get_insert_ne (h : header_map) (k j : string)
    (x : nullable header_value) :
  k ≠ j → get (<[k := x]> h) j = get h j.
Proof. intros Hne. unfold get. rewrite lookup_insert_ne by exact Hne. reflexivity. Qed.

Lemma write_first_wins (k : string) (v1 : header_value)
    (v2 : nullable header_value) (h : header_map) :
  write k v2 (write k (Val v1) h) = write k (Val v1) h.
Proof.
  apply (write_settled (k, v2)). right.
  destruct (write_settles (k, Val v1) h) as [H|H]; [discriminate | exact H].
Qed.

Lemma write_comm (k1 k2 : string) (v1 v2 : nullable header_value)
    (h : header_map) :
  k1 ≠ k2 → write k2 v2 (write k1 v1 h) = write k1 v1 (write k2 v2 h).
Proof.
  intros Hne. unfold write.
  destruct v1 as [| |x1], v2 as [| |x2]; try reflexivity.
  destruct (is_nullish (get h k1)) eqn:E1, (is_nullish (get h k2)) eqn:E2;
    rewrite ?get_insert_ne by congruence; rewrite ?E1, ?E2; try reflexivity.
  apply insert_insert_ne. congruence.
Qed.

(** One guarded write either leaves what is under a name, or binds a name
    that was free to a string. *)
Lemma write_lookup_cases (k j : string) (v : nullable header_value)
    (h : header_map) :
  write k v h !! j = h !! j
  ∨ (is_nullish (get h j) = true
     ∧ ∃ s, write k v h !! j = Some (Val (HString s))).
Proof.
  destruct (decide (k = j)) as [->|Hne].
  - unfold write. destruct v as [| |x]; try (left; reflexivity).
    destruct (is_nullish (get h j)) eqn:E; [|left; reflexivity].
    right. split; [reflexivity|]. eexists. apply lookup_insert_eq.
  - left. apply write_lookup_ne, Hne.
Qed.

Lemma write_all_lookup_cases (l : list (string * nullable header_value))
    (h : header_map) (j : string) :
  write_all l h !! j = h !! j
  ∨ (is_nullish (get h j) = true
     ∧ ∃ s, write_all l h !! j = Some (Val (HString s))).
Proof.
  revert h. induction l as [|[k v] l IH]; intros h; simpl; [left; reflexivity|].
  destruct (IH (write k v h)) as [E|[Hfree [s Hs]]].
  - rewrite E. apply write_lookup_cases.
  - right. split; [|exists s; exact Hs].
    destruct (write_lookup_cases k j v h) as [E|[H _]]; [|exact H].
    unfold get in *. rewrite <- E. exact Hfree.
Qed.

Lemma lookup_allow_headers (c : TShallotHTTPCorsOptions) (ev : APIGatewayEvent)
    (h : header_map) :
  write_all (assignments c ev) h !! "Access-Control-Allow-Headers"
  = write "Access-Control-Allow-Headers" (of_string (prop (allowHeaders c))) h
    !! "Access-Control-Allow-Headers".
Proof.
  apply assignments_lookup. unfold assignments. apply list_elem_of_here.
Qed.

Lemma lookup_max_age (c : TShallotHTTPCorsOptions) (ev : APIGatewayEvent)
    (h : header_map) :
  write_all (assignments c ev) h !! "Access-Control-Max-Age"
  = write "Access-Control-Max-Age" (of_string (prop (maxAge c))) h
    !! "Access-Control-Max-Age".
Proof.
  apply assignments_lookup. unfold assignments.
  do 2 apply list_elem_of_further. apply list_elem_of_here.
Qed.

Lemma write_of_string_lookup (k : string) (x : nullable string)
    (h : header_map) :
  (∀ s, x = Val s → is_nullish (get h k) = true →
        write k (of_string x) h !! k = Some (Val (HString s)))
  ∧ (is_nullish x = true → write k (of_string x) h !! k = h !! k).
Proof.
  split.
  - intros s -> Hfree. apply (write_lookup_fresh k (HString s)). exact Hfree.
  - destruct x; [reflexivity | reflexivity | discriminate].
Qed.

Lemma parseAllowedOrigin_reads (ev1 ev2 : APIGatewayEvent)
    (l : list string) :
  get (event_headers ev1) "Origin" = get (event_headers ev2) "Origin" →
  get (event_headers ev1) "origin" = get (event_headers ev2) "origin" →
  parseAllowedOrigin ev1 l = parseAllowedOrigin ev2 l.
Proof. unfold parseAllowedOrigin. intros -> ->. reflexivity. Qed.

(** ** [setHeaderIfNotExists] *)

(** X1: after a call with a value, a further call for the same header
    changes nothing, whatever value it passes: the first writer wins. *)
Theorem setHeaderIfNotExists_first_wins (r : APIGatewayProxyResult)
    (k : string) (v1 : header_value) (v2 : nullable header_value) :
  setHeaderIfNotExists (setHeaderIfNotExists r k (Val v1)) k v2
  = setHeaderIfNotExists r k (Val v1).
Proof.
  destruct (headers r) as [| |h] eqn:E.
  - rewrite !(setHeaderIfNotExists_no_mapping r) by (rewrite E; reflexivity).
    reflexivity.
  - rewrite !(setHeaderIfNotExists_no_mapping r) by (rewrite E; reflexivity).
    reflexivity.
  - rewrite <- (set_headers_id r h E).
    rewrite !setHeaderIfNotExists_write, write_first_wins. reflexivity.
Qed.

(** X2: calls for two different headers can be made in either order. *)
Theorem setHeaderIfNotExists_comm (r : APIGatewayProxyResult)
    (k1 k2 : string) (v1 v2 : nullable header_value) :
  k1 ≠ k2 →
  setHeaderIfNotExists (setHeaderIfNotExists r k1 v1) k2 v2
  = setHeaderIfNotExists (setHeaderIfNotExists r k2 v2) k1 v1.
Proof.
  intros Hne. destruct (headers r) as [| |h] eqn:E.
  - rewrite !(setHeaderIfNotExists_no_mapping r) by (rewrite E; reflexivity).
    reflexivity.
  - rewrite !(setHeaderIfNotExists_no_mapping r) by (rewrite E; reflexivity).
    reflexivity.
  - rewrite <- (set_headers_id r h E).
    rewrite !setHeaderIfNotExists_write, (write_comm k1 k2) by exact Hne.
    reflexivity.
Qed.


(** ** [parseAllowedOrigin] *)

Lemma parseAllowedOrigin_in_list (ev : APIGatewayEvent) (first : string)
    (rest : list string) :
  ∃ s, parseAllowedOrigin ev (first :: rest) = Val s ∧ s ∈ first :: rest.
Proof.
  unfold parseAllowedOrigin.
  destruct (coalesce _ _) as [| |o];
    try destruct (includes (first :: rest) o) eqn:Ho;
    destruct (includes (first :: rest) "*") eqn:Hs;
    eexists; (split; [reflexivity|]);
    first [ apply includes_elem_of; assumption | apply list_elem_of_here ].
Qed.

(** X4: on a non-empty list the result is a string of the list: an origin
    that is not configured is never returned. *)
Theorem parseAllowedOrigin_member (ev : APIGatewayEvent) (l : list string) :
  l ≠ [] → ∃ s, parseAllowedOrigin ev l = Val s ∧ s ∈ l.
Proof.
  intros Hne. destruct l as [|first rest]; [congruence|].
  apply parseAllowedOrigin_in_list.
Qed.

(** X5: on the empty list the result is [undefined], whatever the event
    carries, and passing it on to [setHeaderIfNotExists] writes nothing. *)
Theorem parseAllowedOrigin_empty (ev : APIGatewayEvent) :
  parseAllowedOrigin ev [] = Undefined
  ∧ ∀ (r : APIGatewayProxyResult) (k : string),
      setHeaderIfNotExists r k (of_string (parseAllowedOrigin ev [])) = r.
Proof.
  assert (parseAllowedOrigin ev [] = Undefined) as E.
  { unfold parseAllowedOrigin. destruct (coalesce _ _); reflexivity. }
  split; [exact E|]. intros r k. rewrite E. reflexivity.
Qed.

(** X6: when the key "Origin" holds a value, what is under "origin" is
    not looked at: the result is the same whatever that key is bound to. *)
Theorem parseAllowedOrigin_Origin_first (ev : APIGatewayEvent)
    (l : list string) (o : string) (x : nullable string) :
  get (event_headers ev) "Origin" = Val o →
  parseAllowedOrigin
    {| httpMethod := httpMethod ev;
       event_headers := <["origin" := x]> (event_headers ev) |} l
  = parseAllowedOrigin ev l.
Proof.
  intros Ho. unfold parseAllowedOrigin. cbn [event_headers].
  assert (get (<["origin" := x]> (event_headers ev)) "Origin" = Val o) as ->.
  { unfold get in *. rewrite lookup_insert_ne by discriminate. exact Ho. }
  rewrite Ho. reflexivity.
Qed.

(** ** [finally] *)

Lemma assignments_reads (c : TShallotHTTPCorsOptions)
    (ev1 ev2 : APIGatewayEvent) :
  httpMethod ev1 = httpMethod ev2 →
  get (event_headers ev1) "Origin" = get (event_headers ev2) "Origin" →
  get (event_headers ev1) "origin" = get (event_headers ev2) "origin" →
  assignments c ev1 = assignments c ev2.
Proof.
  intros Hm Hu Hl. unfold assignments. rewrite Hm.
  destruct (prop (allowedOrigins c)) as [| |origins]; try reflexivity.
  rewrite (parseAllowedOrigin_reads ev1 ev2 origins Hu Hl). reflexivity.
Qed.

Lemma finally_merged_config (config : nullable TShallotHTTPCorsOptions)
    (request : ShallotRequest) :
  finally (Val (with_defaults config)) request = finally config request.
Proof. unfold finally. rewrite with_defaults_idempotent. reflexivity. Qed.

(** X7: of the event, the hook reads the method and the two keys "Origin"
    and "origin" only: two requests that agree on these and on the response
    end with the same response, whatever other headers they carry. *)
Theorem finally_reads_method_and_origin
    (config : nullable TShallotHTTPCorsOptions)
    (request1 request2 : ShallotRequest) :
  response request1 = response request2 →
  httpMethod (event request1) = httpMethod (event request2) →
  get (event_headers (event request1)) "Origin"
  = get (event_headers (event request2)) "Origin" →
  get (event_headers (event request1)) "origin"
  = get (event_headers (event request2)) "origin" →
  response (finally config request1).2 = response (finally config request2).2.
Proof.
  intros Hr Hm Hu Hl.
  destruct (is_nullish (httpMethod (event request1))) eqn:E1.
  - rewrite !finally_without_method; [exact Hr | rewrite <- Hm | ]; exact E1.
  - rewrite !finally_with_method; [ | rewrite <- Hm | ]; try exact E1.
    cbn [snd response]. unfold response_of.
    rewrite (assignments_reads _ _ _ Hm Hu Hl), Hr. reflexivity.
Qed.

(** X8: on a request with a method, whatever the method, the options
    [allowHeaders] and [maxAge] are written as they are, the empty string
    included, under Access-Control-Allow-Headers and
    Access-Control-Max-Age when those are free; an option that is left out
    or nullish leaves its header as it was. *)
Theorem finally_allow_headers_and_max_age
    (config : nullable TShallotHTTPCorsOptions) (request : ShallotRequest)
    (m : string) :
  httpMethod (event request) = Val m →
  let before := headers_of (response request) in
  let after := headers_of (response (finally config request).2) in
  (∀ s, prop (allowHeaders (supplied config)) = Val s →
        is_nullish (get before "Access-Control-Allow-Headers") = true →
        after !! "Access-Control-Allow-Headers" = Some (Val (HString s)))
  ∧ (is_nullish (prop (allowHeaders (supplied config))) = true →
     after !! "Access-Control-Allow-Headers"
     = before !! "Access-Control-Allow-Headers")
  ∧ (∀ s, prop (maxAge (supplied config)) = Val s →
          is_nullish (get before "Access-Control-Max-Age") = true →
          after !! "Access-Control-Max-Age" = Some (Val (HString s)))
  ∧ (is_nullish (prop (maxAge (supplied config))) = true →
     after !! "Access-Control-Max-Age" = before !! "Access-Control-Max-Age").
Proof.
  intros Hmeth before after. subst before after.
  assert (is_nullish (httpMethod (event request)) = false) as Hm
    by (rewrite Hmeth; reflexivity).
  destruct (with_defaults_fields config) as (Ha & Hx & _).
  rewrite finally_headers by exact Hm.
  rewrite lookup_allow_headers, lookup_max_age, Ha, Hx.
  split; [|split; [|split]]; apply write_of_string_lookup.
Qed.

(** X9: on a request with a method, when the list of allowed origins in
    effect is non-empty and Access-Control-Allow-Origin is free, the hook
    binds it to a string of that list. *)
Theorem finally_origin_from_list (config : nullable TShallotHTTPCorsOptions)
    (request : ShallotRequest) (m : string) (l : list string) :
  httpMethod (event request) = Val m →
  prop (allowedOrigins (finally config request).1) = Val l →
  l ≠ [] →
  is_nullish (get (headers_of (response request))
                "Access-Control-Allow-Origin") = true →
  ∃ s, headers_of (response (finally config request).2)
         !! "Access-Control-Allow-Origin" = Some (Val (HString s))
       ∧ s ∈ l.
Proof.
  rewrite finally_config. intros Hmeth Hl Hne Hfree.
  destruct l as [|first rest]; [congruence|].
  destruct (parseAllowedOrigin_in_list (event request) first rest)
    as (s & Hs & Hin).
  exists s. split; [|exact Hin].
  rewrite finally_headers by (rewrite Hmeth; reflexivity).
  rewrite lookup_origin, Hl.
  change (nonempty (first :: rest)) with true. cbv iota.
  rewrite Hs. apply (write_lookup_fresh _ (HString s)). exact Hfree.
Qed.

(** X10: options that carry [allowedOrigins] with the value [undefined] or
    [null] switch the default off: the spread keeps the nullish value, the
    guard fails, and Access-Control-Allow-Origin is left as it was. *)
Theorem finally_nullish_allowedOrigins
    (config : nullable TShallotHTTPCorsOptions) (request : ShallotRequest)
    (x : nullable (list string)) :
  allowedOrigins (supplied config) = Some x →
  is_nullish x = true →
  allowedOrigins (finally config request).1 = Some x
  ∧ headers_of (response (finally config request).2)
      !! "Access-Control-Allow-Origin"
    = headers_of (response request) !! "Access-Control-Allow-Origin".
Proof.
  intros Hx Hnull. rewrite finally_config.
  assert (allowedOrigins (with_defaults config) = Some x) as Hd.
  { unfold with_defaults. cbn [allowedOrigins].
    fold (supplied config). rewrite Hx. reflexivity. }
  split; [exact Hd|].
  destruct (is_nullish (httpMethod (event request))) eqn:Hm.
  - rewrite finally_without_method by exact Hm. reflexivity.
  - rewrite finally_headers by exact Hm. rewrite lookup_origin, Hd.
    destruct x; [reflexivity | reflexivity | discriminate].
Qed.

(** X11: the reassignment of the closure variable [config] does not show
    in later runs: the hook run on any request with the options left by an
    earlier run gives what it gives with the options of the caller. *)
Theorem finally_config_reuse (config : nullable TShallotHTTPCorsOptions)
    (earlier request : ShallotRequest) :
  finally (Val (finally config earlier).1) request = finally config request.
Proof. rewrite finally_config. apply finally_merged_config. Qed.

Lemma finally_lookup_cases (config : nullable TShallotHTTPCorsOptions)
    (request : ShallotRequest) (k : string) :
  headers_of (response (finally config request).2) !! k
  = headers_of (response request) !! k
  ∨ (is_nullish (httpMethod (event request)) = false
     ∧ k ∈ cors_header_names
     ∧ is_nullish (get (headers_of (response request)) k) = true
     ∧ ∃ s, headers_of (response (finally config request).2) !! k
            = Some (Val (HString s))).
Proof.
  destruct (is_nullish (httpMethod (event request))) eqn:Hm.
  - left. rewrite finally_without_method by exact Hm. reflexivity.
  - rewrite finally_headers by exact Hm.
    destruct (decide (k ∈ cors_header_names)) as [Hin|Hout].
    + destruct (write_all_lookup_cases
                  (assignments (with_defaults config) (event request))
                  (headers_of (response request)) k) as [E|[Hfree Hs]];
        [left; exact E | right].
      split; [reflexivity|]. split; [exact Hin|].
      split; [exact Hfree | exact Hs].
    + left. apply write_all_lookup_other.
      rewrite assignments_names. exact Hout.
Qed.

(** X12: an entry of the header mapping that the hook changed is one of
    the five names of [cors_header_names], was free (not bound, or bound to
    a nullish value) and is now bound to a string; and the request had a
    method. *)
Theorem finally_changed_entries (config : nullable TShallotHTTPCorsOptions)
    (request : ShallotRequest) (k : string) :
  headers_of (response (finally config request).2) !! k
  ≠ headers_of (response request) !! k →
  is_nullish (httpMethod (event request)) = false
  ∧ k ∈ cors_header_names
  ∧ is_nullish (get (headers_of (response request)) k) = true
  ∧ ∃ s, headers_of (response (finally config request).2) !! k
         = Some (Val (HString s)).
Proof.
  intros Hneq. destruct (finally_lookup_cases config request k) as [E|H].
  - destruct (Hneq E).
  - exact H.
Qed.

(** X13: the hook removes no header and adds none but the five of
    [cors_header_names]: the names bound before are bound afterwards, the
    names bound afterwards were bound before or are among the five, and
    the mapping grows by five entries at most. *)
Theorem finally_header_names (config : nullable TShallotHTTPCorsOptions)
    (request : ShallotRequest) :
  let before := headers_of (response request) in
  let after := headers_of (response (finally config request).2) in
  dom before ⊆ dom after
  ∧ dom after ⊆ dom before ∪ list_to_set (C := gset string) cors_header_names
  ∧ (size after ≤ size before + 5)%nat.
Proof.
  intros before after.
  assert (∀ k, after !! k = before !! k
               ∨ (k ∈ cors_header_names ∧ is_Some (after !! k))) as Hcases.
  { intros k. destruct (finally_lookup_cases config request k)
      as [E|(_ & Hin & _ & s & Hs)]; [left; exact E | right].
    split; [exact Hin|]. subst after. rewrite Hs. eexists. reflexivity. }
  assert (dom before ⊆ dom after) as Hsub1.
  { intros k Hk. apply elem_of_dom. apply elem_of_dom in Hk.
    destruct (Hcases k) as [E|[_ H]]; [rewrite E; exact Hk | exact H]. }
  assert (dom after
          ⊆ dom before ∪ list_to_set (C := gset string) cors_header_names)
    as Hsub2.
  { intros k Hk. apply elem_of_union.
    destruct (Hcases k) as [E|[Hin _]].
    - left. apply elem_of_dom. rewrite <- E. apply elem_of_dom, Hk.
    - right. apply elem_of_list_to_set, Hin. }
  split; [exact Hsub1|]. split; [exact Hsub2|].
  rewrite <- !(size_dom (D := gset string)).
  etrans; [apply subseteq_size, Hsub2|].
  rewrite size_union_alt. apply Nat.add_le_mono_l.
  etrans; [apply subseteq_size, subseteq_difference_l; reflexivity|].
  rewrite size_list_to_set by exact cors_header_names_NoDup. reflexivity.
Qed.

(** X14: the hook does not keep the wildcard and credentials apart: on a
    request with a method, with [credentials: true] and [allowedOrigins]
    left out, it binds Access-Control-Allow-Origin to "*" and
    Access-Control-Allow-Credentials to "true" when both are free. *)
Theorem finally_wildcard_with_credentials
    (config : nullable TShallotHTTPCorsOptions) (request : ShallotRequest)
    (m : string) :
  httpMethod (event request) = Val m →
  prop (credentials (supplied config)) = Val true →
  allowedOrigins (supplied config) = None →
  is_nullish (get (headers_of (response request))
                "Access-Control-Allow-Origin") = true →
  is_nullish (get (headers_of (response request))
                "Access-Control-Allow-Credentials") = true →
  headers_of (response (finally config request).2)
    !! "Access-Control-Allow-Origin" = Some (Val (HString "*"))
  ∧ headers_of (response (finally config request).2)
      !! "Access-Control-Allow-Credentials" = Some (Val (HString "true")).
Proof.
  intros Hmeth Hcred Horig Hfo Hfc.
  rewrite finally_headers by (rewrite Hmeth; reflexivity).
  assert (allowedOrigins (with_defaults config) = Some (Val ["*"])) as Hd.
  { unfold with_defaults. cbn [allowedOrigins].
    fold (supplied config). rewrite Horig. reflexivity. }
  split.
  - rewrite lookup_origin, Hd.
    change (prop (Some (Val ["*"]))) with (Val ["*"]).
    change (nonempty ["*"]) with true. cbv iota.
    rewrite parseAllowedOrigin_wildcard_only.
    apply (write_lookup_fresh _ (HString "*")). exact Hfo.
  - rewrite lookup_credentials, is_true_with_defaults.
    apply is_true_true in Hcred. rewrite Hcred.
    apply (write_lookup_fresh _ (HBoolean true)). exact Hfc.
Qed.

(** ** The hook on an event without a header mapping *)

(** X15: run on an event whose header mapping is [undefined] or [null],
    the hook throws a [TypeError] exactly when the request has a method
    and the list of allowed origins in effect is non-empty: then
    [parseAllowedOrigin] is called and reads [event.headers['Origin']].
    With no method, or with an empty or nullish list, it returns. *)
Theorem finally_exec_without_headers
    (config : nullable TShallotHTTPCorsOptions) (ev : RuntimeEvent)
    (r : nullable APIGatewayProxyResult) :
  is_nullish (rt_headers ev) = true →
  finally_exec config {| rt_event := Val ev; rt_response := r |}
  = Thrown TypeError
  ↔ is_nullish (rt_httpMethod ev) = false
    ∧ ∃ origins, prop (allowedOrigins (with_defaults config)) = Val origins
                 ∧ nonempty origins = true.
Proof.
  intros Hnone.
  assert (∀ l, parseAllowedOrigin_exec ev l = Thrown TypeError) as Hparse.
  { intros l. unfold parseAllowedOrigin_exec.
    destruct (rt_headers ev); [reflexivity | reflexivity | discriminate]. }
  unfold finally_exec. cbn [rt_event rt_response object_of].
  rewrite bind_ret. generalize (with_defaults config) as c. intros c.
  destruct (is_nullish (rt_httpMethod ev)) eqn:Hm; cbn [negb]; cbv iota zeta.
  - split; [discriminate | intros [H _]; discriminate].
  - destruct (prop (allowedOrigins c)) as [| |origins] eqn:Ho.
    + rewrite bind_ret. split; [discriminate|].
      intros (_ & l & Hl & _). discriminate.
    + rewrite bind_ret. split; [discriminate|].
      intros (_ & l & Hl & _). discriminate.
    + destruct (nonempty origins) eqn:Hlen.
      * rewrite Hparse. split; [|reflexivity].
        intros _. split; [reflexivity|]. exists origins.
        split; [reflexivity | exact Hlen].
      * rewrite bind_ret. split; [discriminate|].
        intros (_ & l & Hl & Hl'). inversion Hl; subst l.
        rewrite Hlen in Hl'. discriminate.
Qed.

End HttpCors.

(** * Concrete runs

    The scenarios of the test-suite, with numbers read as integers, and
    the theorems above applied to them. *)

(** 'Default usage': a GET with no options gets the wildcard origin. *)
Example run_default_usage :
  headers_of
    (response
       (finally pretty Undefined
          {| event := mockEvent (Val "GET") "Origin" "https://www.example.com";
             response := Val (mockHandler_result 200%Z) |}).2)
  = {[ "Access-Control-Allow-Origin" := Val (HString "*") ]}.
Proof. vm_compute. reflexivity. Qed.

(** 'Cache-Control for OPTIONS method'. *)
Example run_cache_control_options :
  headers_of
    (response
       (finally pretty (Val (options_cacheControl "no-cache"))
          {| event := mockEvent (Val "OPTIONS") "Origin" "https://www.example.com";
             response := Val (mockHandler_result 200%Z) |}).2)
  = {[ "Access-Control-Allow-Origin" := Val (HString "*");
       "Cache-Control" := Val (HString "no-cache") ]}.
Proof. vm_compute. reflexivity. Qed.

(** 'Credentials'. *)
Example run_credentials :
  headers_of
    (response
       (finally pretty (Val (options_credentials true))
          {| event := mockEvent (Val "GET") "Origin" "https://www.example.com";
             response := Val (mockHandler_result 200%Z) |}).2)
  = {[ "Access-Control-Allow-Origin" := Val (HString "*");
       "Access-Control-Allow-Credentials" := Val (HString "true") ]}.
Proof. vm_compute. reflexivity. Qed.

(** 'Max-Age': the empty string is a value and is written. *)
Example run_max_age :
  headers_of
    (response
       (finally pretty (Val (options_maxAge ""))
          {| event := mockEvent (Val "GET") "Origin" "https://www.example.com";
             response := Val (mockHandler_result 200%Z) |}).2)
  = {[ "Access-Control-Allow-Origin" := Val (HString "*");
       "Access-Control-Max-Age" := Val (HString "") ]}.
Proof. vm_compute. reflexivity. Qed.

(** 'Unaccepted origin': the first allowed origin is advertised. *)
Example run_unaccepted_origin :
  headers_of
    (response
       (finally pretty
          (Val (options_allowedOrigins ["https://www.other-website.com"]))
          {| event := mockEvent (Val "GET") "Origin" "https://www.example.com";
             response := Val (mockHandler_result 200%Z) |}).2)
  = {[ "Access-Control-Allow-Origin"
       := Val (HString "https://www.other-website.com") ]}.
Proof. vm_compute. reflexivity. Qed.

(** 'No origins'. *)
Example run_no_origins :
  (finally pretty (Val (options_allowedOrigins []))
     {| event := mockEvent (Val "GET") "Origin" "https://www.example.com";
        response := Val (mockHandler_result 200%Z) |}).2
  = {| event := mockEvent (Val "GET") "Origin" "https://www.example.com";
       response := Val (set_headers (mockHandler_result 200%Z) (Val ∅)) |}.
Proof. vm_compute. reflexivity. Qed.

(** 'response undefined': a response with a header mapping is created. *)
Example run_response_undefined :
  response
    (finally pretty Undefined
       {| event := mockEvent (Val "GET") "Origin" "https://www.example.com";
          response := @Undefined (@APIGatewayProxyResult Z) |}).2
  = Val (set_headers empty_result
           (Val {[ "Access-Control-Allow-Origin" := Val (HString "*") ]})).
Proof. vm_compute. reflexivity. Qed.

(** 'Predefined headers'. *)
Example run_predefined_headers :
  headers_of
    (response
       (finally pretty Undefined
          {| event := mockEvent (Val "GET") "Origin" "https://www.example.com";
             response := Val (handlerWithResHeaders_result 200%Z) |}).2)
  = {[ "X-Test" := Val (HString "");
       "Access-Control-Allow-Origin" := Val (HString "*") ]}.
Proof. vm_compute. reflexivity. Qed.

(** A second run after 'Credentials' on an OPTIONS request. *)
Example run_twice :
  finally_again pretty
    (finally pretty (Val (options_credentials true))
       {| event := mockEvent (Val "OPTIONS") "origin" "https://www.example.com";
          response := @Undefined (@APIGatewayProxyResult Z) |})
  = finally pretty (Val (options_credentials true))
      {| event := mockEvent (Val "OPTIONS") "origin" "https://www.example.com";
         response := Undefined |}.
Proof. vm_compute. reflexivity. Qed.

(** 'Same origin', 'Unaccepted origin' and a list with a wildcard: the
    four cases of the origin resolution. *)
Lemma parseAllowedOrigin_resolves_witness :
  parseAllowedOrigin
    (mockEvent (Val "GET") "origin" "https://www.other-website.com")
    ["https://www.other-website.com"]
  = Val "https://www.other-website.com"
  ∧ parseAllowedOrigin
      (mockEvent (Val "GET") "Origin" "https://www.example.com")
      ["https://www.other-website.com"; "*"]
    = Val "*"
  ∧ parseAllowedOrigin
      (mockEvent (Val "GET") "Origin" "https://www.example.com")
      ["https://www.other-website.com"]
    = Val "https://www.other-website.com"
  ∧ parseAllowedOrigin
      (mockEvent (Val "GET") "origin" "https://www.other-website.com")
      ["https://www.other-website.com"]
    = parseAllowedOrigin
        (with_capitalised_origin
           (mockEvent (Val "GET") "origin" "https://www.other-website.com")
           "https://www.other-website.com")
        ["https://www.other-website.com"].
Proof.
  assert (∀ l : list string, "https://www.other-website.com" ∈ l →
               "https://www.example.com" ∉ l →
               ∀ o, inbound_origin
                      (mockEvent (Val "GET") "Origin" "https://www.example.com")
                    = Some o → o ∉ l) as Hout.
  { intros l _ Hl o Ho. vm_compute in Ho. inversion Ho. exact Hl. }
  split; [|split; [|split]].
  - apply (proj1 (parseAllowedOrigin_resolves _ _ _)).
    + reflexivity.
    + apply list_elem_of_here.
  - apply (proj1 (proj2 (parseAllowedOrigin_resolves _ _ _))).
    + apply Hout; [apply list_elem_of_here|].
      rewrite !not_elem_of_cons. repeat split; try discriminate.
      apply not_elem_of_nil.
    + apply list_elem_of_further, list_elem_of_here.
  - apply (proj1 (proj2 (proj2 (parseAllowedOrigin_resolves _ _ _)))).
    + apply Hout; [apply list_elem_of_here|].
      rewrite !not_elem_of_cons. repeat split; try discriminate.
      apply not_elem_of_nil.
    + rewrite !not_elem_of_cons. repeat split; try discriminate.
      apply not_elem_of_nil.
  - apply (proj2 (proj2 (proj2 (parseAllowedOrigin_resolves _ _ _)))).
    + reflexivity.
    + reflexivity.
Defined.

(** 'Predefined headers': X-Test, bound to the empty string, stays. *)
Lemma finally_keeps_bound_headers_witness :
  headers_of
    (response
       (finally pretty (Val (options_credentials true))
          {| event := mockEvent (Val "GET") "Origin" "https://www.example.com";
             response := Val (handlerWithResHeaders_result 200%Z) |}).2)
    !! "X-Test"
  = Some (Val (HString "")).
Proof.
  apply (finally_keeps_bound_headers pretty). reflexivity.
Defined.

(** 'No method': the request comes back as it went in. *)
Lemma finally_without_method_keeps_request_witness :
  (finally pretty (Val (options_credentials true))
     {| event := mockEvent Undefined "Origin" "https://www.example.com";
        response := Val (mockHandler_result 200%Z) |}).2
  = {| event := mockEvent Undefined "Origin" "https://www.example.com";
       response := Val (mockHandler_result 200%Z) |}.
Proof.
  apply (finally_without_method_keeps_request pretty). reflexivity.
Defined.

(** 'No origins': nothing is bound to Access-Control-Allow-Origin. *)
Lemma finally_empty_allowedOrigins_witness :
  headers_of
    (response
       (finally pretty (Val (options_allowedOrigins []))
          {| event := mockEvent (Val "GET") "Origin" "https://www.example.com";
             response := Val (mockHandler_result 200%Z) |}).2)
    !! "Access-Control-Allow-Origin"
  = None.
Proof.
  refine (eq_trans
            (proj1 (finally_empty_allowedOrigins pretty
                      (options_allowedOrigins []) _ _)) _);
    reflexivity.
Defined.

(** 'Cache-Control for OPTIONS method', and the same options on a GET. *)
Lemma finally_cache_control_witness :
  headers_of
    (response
       (finally pretty (Val (options_cacheControl "no-cache"))
          {| event := mockEvent (Val "OPTIONS") "Origin" "https://www.example.com";
             response := Val (mockHandler_result 200%Z) |}).2)
    !! "Cache-Control"
  = Some (Val (HString "no-cache"))
  ∧ headers_of
      (response
         (finally pretty (Val (options_cacheControl "no-cache"))
            {| event := mockEvent (Val "GET") "Origin" "https://www.example.com";
               response := Val (mockHandler_result 200%Z) |}).2)
      !! "Cache-Control"
    = None.
Proof.
  split.
  - apply (proj1 (finally_cache_control pretty _ _)); reflexivity.
  - refine (eq_trans
              (proj1 (proj2 (finally_cache_control pretty _ _)) _) _);
      [discriminate | reflexivity].
Defined.

(** 'Credentials', and the same request with [credentials: false]. *)
Lemma finally_credentials_witness :
  headers_of
    (response
       (finally pretty (Val (options_credentials true))
          {| event := mockEvent (Val "GET") "Origin" "https://www.example.com";
             response := Val (mockHandler_result 200%Z) |}).2)
    !! "Access-Control-Allow-Credentials"
  = Some (Val (HString "true"))
  ∧ headers_of
      (response
         (finally pretty (Val (options_credentials false))
            {| event := mockEvent (Val "GET") "Origin" "https://www.example.com";
               response := Val (mockHandler_result 200%Z) |}).2)
      !! "Access-Control-Allow-Credentials"
    = None.
Proof.
  split.
  - apply (proj1 (finally_credentials pretty
                    (Val (options_credentials true))
                    {| event := mockEvent (Val "GET") "Origin" "https://www.example.com";
                       response := Val (mockHandler_result 200%Z) |}
                    "GET" eq_refl));
      reflexivity.
  - refine (eq_trans
              (proj2 (finally_credentials pretty
                        (Val (options_credentials false))
                        {| event := mockEvent (Val "GET") "Origin" "https://www.example.com";
                           response := Val (mockHandler_result 200%Z) |}
                        "GET" eq_refl) _) _);
      [discriminate | reflexivity].
Defined.

(** 'Default usage', from the theorem on defaults. *)
Lemma finally_applies_defaults_witness :
  allowedOrigins
    (finally pretty (Val (options_maxAge "600"))
       {| event := mockEvent (Val "GET") "Origin" "https://www.example.com";
          response := Val (mockHandler_result 200%Z) |}).1
  = Some (Val ["*"])
  ∧ headers_of
      (response
         (finally pretty Undefined
            {| event := mockEvent (Val "GET") "Origin" "https://www.example.com";
               response := Val (mockHandler_result 200%Z) |}).2)
    = {[ "Access-Control-Allow-Origin" := Val (HString "*") ]}.
Proof.
  split.
  - apply (proj1 (finally_applies_defaults pretty)); reflexivity.
  - apply (proj2 (finally_applies_defaults pretty) _ _ "GET"); reflexivity.
Defined.

(** 'Predefined headers': X-Test, the status code and the body stay. *)
Lemma finally_frame_witness :
  headers_of
    (response
       (finally pretty (Val (options_credentials true))
          {| event := mockEvent (Val "GET") "Origin" "https://www.example.com";
             response := Val (handlerWithResHeaders_result 200%Z) |}).2)
    !! "X-Test"
  = Some (Val (HString ""))
  ∧ statusCode
      (response_of
         (finally pretty (Val (options_credentials true))
            {| event := mockEvent (Val "GET") "Origin" "https://www.example.com";
               response := Val (handlerWithResHeaders_result 200%Z) |}).2)
    = Val 200%Z.
Proof.
  pose proof (finally_frame pretty (Val (options_credentials true))
                {| event := mockEvent (Val "GET") "Origin" "https://www.example.com";
                   response := Val (handlerWithResHeaders_result 200%Z) |}
                "GET" eq_refl) as (Hother & Hstatus & _).
  split.
  - rewrite Hother; [reflexivity|].
    unfold cors_header_names. rewrite !not_elem_of_cons.
    repeat split; try discriminate. apply not_elem_of_nil.
  - rewrite Hstatus. reflexivity.
Defined.

(** * Concrete runs of the further properties *)

(** Two calls on the response of 'Predefined headers', in either order. *)
Lemma setHeaderIfNotExists_comm_witness :
  setHeaderIfNotExists pretty
    (setHeaderIfNotExists pretty (handlerWithResHeaders_result 200%Z)
       "Access-Control-Max-Age" (Val (HNumber 600%Z)))
    "Cache-Control" (Val (HString "no-cache"))
  = setHeaderIfNotExists pretty
      (setHeaderIfNotExists pretty (handlerWithResHeaders_result 200%Z)
         "Cache-Control" (Val (HString "no-cache")))
      "Access-Control-Max-Age" (Val (HNumber 600%Z)).
Proof.
  apply (setHeaderIfNotExists_comm pretty). discriminate.
Defined.


(** 'Unaccepted origin': the result is an entry of the list. *)
Lemma parseAllowedOrigin_member_witness :
  ∃ s, parseAllowedOrigin
         (mockEvent (Val "GET") "Origin" "https://www.example.com")
         ["https://www.other-website.com"; "https://www.example.org"]
       = Val s
       ∧ s ∈ ["https://www.other-website.com"; "https://www.example.org"].
Proof.
  apply parseAllowedOrigin_member. discriminate.
Defined.

(** With "Origin" present, a different "origin" makes no difference. *)
Lemma parseAllowedOrigin_Origin_first_witness :
  parseAllowedOrigin
    {| httpMethod := Val "GET";
       event_headers :=
         <["origin" := Val "https://www.other-website.com"]>
           (event_headers
              (mockEvent (Val "GET") "Origin" "https://www.example.com")) |}
    ["https://www.other-website.com"; "*"]
  = parseAllowedOrigin
      (mockEvent (Val "GET") "Origin" "https://www.example.com")
      ["https://www.other-website.com"; "*"].
Proof.
  apply (parseAllowedOrigin_Origin_first
           (mockEvent (Val "GET") "Origin" "https://www.example.com")
           _ "https://www.example.com").
  reflexivity.
Defined.

(** 'Default usage' with one more request header. *)
Lemma finally_reads_method_and_origin_witness :
  response
    (finally pretty (Val (options_credentials true))
       {| event := mockEvent (Val "GET") "Origin" "https://www.example.com";
          response := Val (mockHandler_result 200%Z) |}).2
  = response
      (finally pretty (Val (options_credentials true))
         {| event :=
              {| httpMethod := Val "GET";
                 event_headers :=
                   {[ "Origin" := Val "https://www.example.com";
                      "Access-Control-Request-Headers" := Val "X-Custom" ]} |};
            response := Val (mockHandler_result 200%Z) |}).2.
Proof.
  apply (finally_reads_method_and_origin pretty); reflexivity.
Defined.

(** 'Max-Age': the empty string is written on a GET. *)
Lemma finally_allow_headers_and_max_age_witness :
  headers_of
    (response
       (finally pretty (Val (options_maxAge ""))
          {| event := mockEvent (Val "GET") "Origin" "https://www.example.com";
             response := Val (mockHandler_result 200%Z) |}).2)
    !! "Access-Control-Max-Age"
  = Some (Val (HString ""))
  ∧ headers_of
      (response
         (finally pretty (Val (options_maxAge ""))
            {| event := mockEvent (Val "GET") "Origin" "https://www.example.com";
               response := Val (mockHandler_result 200%Z) |}).2)
      !! "Access-Control-Allow-Headers"
    = None.
Proof.
  pose proof (finally_allow_headers_and_max_age pretty
                (Val (options_maxAge ""))
                {| event := mockEvent (Val "GET") "Origin" "https://www.example.com";
                   response := Val (mockHandler_result 200%Z) |}
                "GET" eq_refl) as (_ & Hnone & Hage & _).
  split.
  - apply Hage; reflexivity.
  - rewrite Hnone; reflexivity.
Defined.

(** 'Unaccepted origin': the header gets an entry of the list. *)
Lemma finally_origin_from_list_witness :
  ∃ s, headers_of
         (response
            (finally pretty
               (Val (options_allowedOrigins ["https://www.other-website.com"]))
               {| event := mockEvent (Val "GET") "Origin" "https://www.example.com";
                  response := Val (mockHandler_result 200%Z) |}).2)
         !! "Access-Control-Allow-Origin"
       = Some (Val (HString s))
       ∧ s ∈ ["https://www.other-website.com"].
Proof.
  apply (finally_origin_from_list pretty
           (Val (options_allowedOrigins ["https://www.other-website.com"]))
           {| event := mockEvent (Val "GET") "Origin" "https://www.example.com";
              response := Val (mockHandler_result 200%Z) |}
           "GET" ["https://www.other-website.com"] eq_refl eq_refl).
  - discriminate.
  - reflexivity.
Defined.

(** Options [{ allowedOrigins: undefined }]: no default, no header. *)
Lemma finally_nullish_allowedOrigins_witness :
  allowedOrigins
    (finally pretty
       (Val {| allowHeaders := None; allowedOrigins := Some Undefined;
               credentials := None; maxAge := None; cacheControl := None |})
       {| event := mockEvent (Val "GET") "Origin" "https://www.example.com";
          response := Val (mockHandler_result 200%Z) |}).1
  = Some Undefined
  ∧ headers_of
      (response
         (finally pretty
            (Val {| allowHeaders := None; allowedOrigins := Some Undefined;
                    credentials := None; maxAge := None;
                    cacheControl := None |})
            {| event := mockEvent (Val "GET") "Origin" "https://www.example.com";
               response := Val (mockHandler_result 200%Z) |}).2)
      !! "Access-Control-Allow-Origin"
    = None.
Proof.
  pose proof (finally_nullish_allowedOrigins pretty
                (Val {| allowHeaders := None; allowedOrigins := Some Undefined;
                        credentials := None; maxAge := None;
                        cacheControl := None |})
                {| event := mockEvent (Val "GET") "Origin" "https://www.example.com";
                   response := Val (mockHandler_result 200%Z) |}
                Undefined eq_refl eq_refl) as [Hcfg Hsame].
  split; [exact Hcfg|]. rewrite Hsame. reflexivity.
Defined.

(** 'Default usage': the one entry that changed. *)
Lemma finally_changed_entries_witness :
  is_nullish (httpMethod (mockEvent (Val "GET") "Origin" "https://www.example.com"))
  = false
  ∧ "Access-Control-Allow-Origin" ∈ cors_header_names
  ∧ ∃ s, headers_of
           (response
              (finally pretty Undefined
                 {| event := mockEvent (Val "GET") "Origin" "https://www.example.com";
                    response := Val (mockHandler_result 200%Z) |}).2)
           !! "Access-Control-Allow-Origin"
         = Some (Val (HString s)).
Proof.
  destruct (finally_changed_entries pretty Undefined
              {| event := mockEvent (Val "GET") "Origin" "https://www.example.com";
                 response := Val (mockHandler_result 200%Z) |}
              "Access-Control-Allow-Origin")
    as (Hm & Hin & _ & Hs).
  - vm_compute. discriminate.
  - split; [exact Hm|]. split; [exact Hin | exact Hs].
Defined.

(** 'Credentials': the wildcard together with credentials. *)
Lemma finally_wildcard_with_credentials_witness :
  headers_of
    (response
       (finally pretty (Val (options_credentials true))
          {| event := mockEvent (Val "GET") "Origin" "https://www.example.com";
             response := Val (mockHandler_result 200%Z) |}).2)
    !! "Access-Control-Allow-Origin"
  = Some (Val (HString "*"))
  ∧ headers_of
      (response
         (finally pretty (Val (options_credentials true))
            {| event := mockEvent (Val "GET") "Origin" "https://www.example.com";
               response := Val (mockHandler_result 200%Z) |}).2)
      !! "Access-Control-Allow-Credentials"
    = Some (Val (HString "true")).
Proof.
  apply (finally_wildcard_with_credentials pretty
           (Val (options_credentials true))
           {| event := mockEvent (Val "GET") "Origin" "https://www.example.com";
              response := Val (mockHandler_result 200%Z) |}
           "GET"); reflexivity.
Defined.

(** 'Default usage' on an event that has no header mapping. *)
Lemma finally_exec_without_headers_witness :
  finally_exec pretty Undefined
    {| rt_event := Val {| rt_httpMethod := Val "GET"; rt_headers := Undefined |};
       rt_response := Val (mockHandler_result 200%Z) |}
  = Thrown TypeError.
Proof.
  apply (proj2 (finally_exec_without_headers pretty Undefined
                  {| rt_httpMethod := Val "GET"; rt_headers := Undefined |}
                  (Val (mockHandler_result 200%Z)) eq_refl)).
  split; [reflexivity|]. exists ["*"]. split; reflexivity.
Defined.

(** Without an event the read of the method throws. *)
Example run_no_event :
  finally_exec pretty Undefined
    {| rt_event := Undefined; rt_response := Val (mockHandler_result 200%Z) |}
  = Thrown TypeError.
Proof. reflexivity. Qed.

(** Called on the empty list, [parseAllowedOrigin] reads index 0 of an
    array of length 0. *)
Example run_parseAllowedOrigin_empty :
  parseAllowedOrigin_exec
    (runtime_event (mockEvent (Val "GET") "Origin" "https://www.example.com"))
    []
  = Returned Undefined [(0, 0)].
Proof. reflexivity. Qed.

(** 'Unaccepted origin': one read, at index 0 of a list of length 1. *)
Example run_unaccepted_origin_reads :
  finally_exec pretty
    (Val (options_allowedOrigins ["https://www.other-website.com"]))
    (runtime_request
       {| event := mockEvent (Val "GET") "Origin" "https://www.example.com";
          response := Val (mockHandler_result 200%Z) |})
  = Returned
      (with_defaults
         (Val (options_allowedOrigins ["https://www.other-website.com"])),
       runtime_request
         {| event := mockEvent (Val "GET") "Origin" "https://www.example.com";
            response :=
              Val (set_headers (mockHandler_result 200%Z)
                     (Val {[ "Access-Control-Allow-Origin"
                             := Val (HString "https://www.other-website.com") ]})) |})
      [(0, 1)].
Proof. vm_compute. reflexivity. Qed.
